(** * svg-drag-and-zoom: the gesture-to-matrix maths of [useSvgPanZoom.ts]

    The composable turns one- and two-finger touch sequences into a 2D affine
    transform.  Two models of its arithmetic are given:

    - [Exact]: JavaScript numbers read as mathematical reals, so that
      [Math.hypot], [Math.atan2], [Math.cos] and [Math.sin] are the exact
      functions.  The algebraic properties of the transform (what it does to
      points, midpoints and distances) are stated there.
    - [IEEE]: JavaScript numbers as IEEE-754 binary64 values ([spec_float]
      with 53 bits of precision), with NaN, the infinities and signed zeros.
      Properties about division by zero and non-finite results live there. *)

From Stdlib Require Import Reals Lra Lia ZArith List Bool.
From Stdlib Require Import Floats.SpecFloat.
Import ListNotations.

(* ================================================================== *)
(** * Exact arithmetic                                                 *)
(* ================================================================== *)

Module Exact.

Local Open Scope R_scope.

(** ** Types *)

(** [interface Point { x: number; y: number }] *)
Record Point : Type := mkPoint { x : R; y : R }.

(** [interface MatrixProps { one; two; newOne; newTwo }] *)
Record MatrixProps : Type := mkProps
  { one : Point; two : Point; newOne : Point; newTwo : Point }.

(** A 2D [DOMMatrix], as built by [new DOMMatrix([a, b, c, d, e, f])]. *)
Record DOMMatrix : Type := mkMatrix
  { a : R; b : R; c : R; d : R; e : R; f : R }.

Definition identity : DOMMatrix := mkMatrix 1 0 0 1 0 0.

(** [A.multiply(B)] post-multiplies: the result is [A * B], which applies
    [B] first and [A] second. *)
Definition multiply (A B : DOMMatrix) : DOMMatrix :=
  mkMatrix (a A * a B + c A * b B)
           (b A * a B + d A * b B)
           (a A * c B + c A * d B)
           (b A * c B + d A * d B)
           (a A * e B + c A * f B + e A)
           (b A * e B + d A * f B + f A).

(** The action of a matrix on a point:
    [(x, y) -> (a*x + c*y + e, b*x + d*y + f)]. *)
Definition transformPoint (m : DOMMatrix) (p : Point) : Point :=
  mkPoint (a m * x p + c m * y p + e m) (b m * x p + d m * y p + f m).

Definition midpoint (p q : Point) : Point :=
  mkPoint ((x p + x q) / 2) ((y p + y q) / 2).

(** ** Host functions *)

(** [Math.hypot(u, v)] *)
Definition hypot (u v : R) : R := sqrt (u * u + v * v).

(** [Math.atan2(v, u)]: the angle of the vector [(u, v)], in [(-PI, PI]];
    [0] at the origin. *)
Definition atan2 (v u : R) : R :=
  match total_order_T u 0 with
  | inleft (left _) =>                         (* u < 0 *)
      if Rle_dec 0 v then atan (v / u) + PI else atan (v / u) - PI
  | inleft (right _) =>                        (* u = 0 *)
      match total_order_T v 0 with
      | inleft (left _) => - (PI / 2)
      | inleft (right _) => 0
      | inright _ => PI / 2
      end
  | inright _ => atan (v / u)                  (* 0 < u *)
  end.

(** ** Transform maths *)

Definition getDistance (pointOne pointTwo : Point) : R :=
  hypot (x pointOne - x pointTwo) (y pointOne - y pointTwo).

Definition getZoomMatrix (p : MatrixProps) : DOMMatrix :=
  let d := getDistance (newOne p) (newTwo p) / getDistance (one p) (two p) in
  let cx := (x (newOne p) + x (newTwo p)) / 2 in
  let cy := (y (newOne p) + y (newTwo p)) / 2 in
  let tx := cx - d * ((x (one p) + x (two p)) / 2) in
  let ty := cy - d * ((y (one p) + y (two p)) / 2) in
  mkMatrix d 0 0 d tx ty.

Definition getMatrix (p : MatrixProps) : DOMMatrix :=
  let d := getDistance (newOne p) (newTwo p) / getDistance (one p) (two p) in
  let cx := (x (newOne p) + x (newTwo p)) / 2 in
  let cy := (y (newOne p) + y (newTwo p)) / 2 in
  let atan := atan2 (y (two p) - y (one p)) (x (two p) - x (one p)) in
  let newAtan :=
    atan2 (y (newTwo p) - y (newOne p)) (x (newTwo p) - x (newOne p)) in
  let c := cos (newAtan - atan) in
  let s := sin (newAtan - atan) in
  let tx := cx - d * ((x (one p) + x (two p)) / 2) * c
               + d * ((y (one p) + y (two p)) / 2) * s in
  let ty := cy - d * ((y (one p) + y (two p)) / 2) * c
               - d * ((x (one p) + x (two p)) / 2) * s in
  mkMatrix (d * c) (d * s) (- d * s) (d * c) tx ty.


(** The scenario of the specification: two fingers that start at [(0, 0)]
    and [(10, 0)] and end at [(0, 0)] and [(20, 0)]. *)
Definition scenario : MatrixProps :=
  mkProps (mkPoint 0 0) (mkPoint 10 0) (mkPoint 0 0) (mkPoint 20 0).

(** ** Touch events and the DOM *)

(** A [Touch] of a [TouchList], with the two attributes the code reads. *)
Record Touch : Type := mkTouch { pageX : R; pageY : R }.

Definition TouchList : Type := list Touch.

(** [touches[i]]: [undefined] past the end of the list. *)
Definition item (touches : TouchList) (i : nat) : option Touch :=
  nth_error touches i.

(** [v || 0] for [v] a number or [undefined]: the falsy values ([undefined]
    and, for a real number, [0]) give [0]. *)
Definition orZero (v : option R) : R :=
  match v with
  | Some n => if Req_dec_T n 0 then 0 else n
  | None => 0
  end.

(** [{ x: touch?.pageX || 0, y: touch?.pageY || 0 }] *)
Definition getTouchCoords (touch : option Touch) : Point :=
  mkPoint (orZero (option_map pageX touch)) (orZero (option_map pageY touch)).

(** The part of the document the hook reads and writes: the screen matrix of
    the [svg] element and the [transform] attribute of the wrapping group
    (absent at first, which is the identity). *)
Record Dom : Type := mkDom { parentCTM : DOMMatrix; transform : DOMMatrix }.

(** [m.inverse()] *)
Definition inverse (m : DOMMatrix) : DOMMatrix :=
  let det := a m * d m - b m * c m in
  mkMatrix (d m / det) (- b m / det) (- c m / det) (a m / det)
           ((c m * f m - d m * e m) / det) ((b m * e m - a m * f m) / det).

(** [el.getScreenCTM()] for the group: its parent's matrix followed by its
    own transform. *)
Definition getScreenCTM (dom : Dom) : DOMMatrix :=
  multiply (parentCTM dom) (transform dom).

Definition getCurrentMatrix (dom : Dom) : DOMMatrix :=
  let childMatrix := getScreenCTM dom in
  multiply (inverse (parentCTM dom)) childMatrix.

Definition updateMatrix (dom : Dom) (matrix : DOMMatrix) : Dom :=
  mkDom (parentCTM dom) matrix.

(** ** Hook *)

(** [interface Props { isRotatable?: boolean }] *)
Record Props : Type := mkHookProps { isRotatable : option bool }.

(** The condition of [isRotatable ? ... : ...]: [undefined] is falsy. *)
Definition truthy (v : option bool) : bool :=
  match v with Some true => true | _ => false end.

(** [initialState] of [onDoubleTouch]. *)
Module InitialState.
Record t : Type := make { touchOne : Point; touchTwo : Point; matrix : DOMMatrix }.
End InitialState.

(** The [onTouchMove] closures that [setTouchMove] registers on the
    document: the one of [onSingleTouch], and the one of [onDoubleTouch]
    with the [initialState] it closes over. *)
Inductive Listener : Type :=
  | SingleMove
  | DoubleMove (initialState : InitialState.t).

(** The state of a mounted hook: the document, the [matrix] ref and the
    [touchmove] listeners in registration order (each comes with its own
    [touchend] listener, which removes the pair). *)
Record Hook : Type := mkHook
  { dom : Dom; matrix : option DOMMatrix; listeners : list Listener }.

Inductive Event : Type :=
  | TouchStart (touches : TouchList)
  | TouchMove (touches : TouchList)
  | TouchEnd (touches : TouchList).

Section Hook.

Variable props : Props.

Definition setTouchMove (onTouchMove : Listener) (h : Hook) : Hook :=
  mkHook (dom h) (matrix h) (listeners h ++ [onTouchMove]).

Definition onSingleTouch (h : Hook) : Hook := setTouchMove SingleMove h.

Definition onDoubleTouch (touches : TouchList) (h : Hook) : Hook :=
  let initialState :=
    InitialState.make (getTouchCoords (item touches 0))
                      (getTouchCoords (item touches 1))
                      (getCurrentMatrix (dom h)) in
  setTouchMove (DoubleMove initialState) h.

Definition onTouchStart (touches : TouchList) (h : Hook) : Hook :=
  let h1 := if Nat.eqb (length touches) 1 then onSingleTouch h else h in
  if Nat.eqb (length touches) 2 then onDoubleTouch touches h1 else h1.

(** The incremental matrix of a move of the two-finger gesture. *)
Definition newMatrix (initialState : InitialState.t) (touches : TouchList)
  : DOMMatrix :=
  let matrixParams :=
    mkProps (InitialState.touchOne initialState)
            (InitialState.touchTwo initialState)
            (getTouchCoords (item touches 0))
            (getTouchCoords (item touches 1)) in
  if truthy (isRotatable props)
  then getMatrix matrixParams
  else getZoomMatrix matrixParams.

(** One registered [onTouchMove] run on a [touchmove] event. *)
Definition onTouchMove (touches : TouchList) (h : Hook) (l : Listener) : Hook :=
  match l with
  | SingleMove => h
  | DoubleMove initialState =>
      mkHook (dom h)
             (Some (multiply (newMatrix initialState touches)
                             (InitialState.matrix initialState)))
             (listeners h)
  end.

(** Every [onTouchEnd] removes its own pair of listeners. *)
Definition onTouchEnd (h : Hook) : Hook := mkHook (dom h) (matrix h) [].

(** [watchEffect]: once the [matrix] ref holds a matrix it is written to the
    group's [transform] attribute. *)
Definition watchEffect (h : Hook) : Hook :=
  match matrix h with
  | Some m => mkHook (updateMatrix (dom h) m) (matrix h) (listeners h)
  | None => h
  end.

(** The listeners of an event run, then the effect is flushed. *)
Definition dispatch (h : Hook) (ev : Event) : Hook :=
  watchEffect
    match ev with
    | TouchStart touches => onTouchStart touches h
    | TouchMove touches => fold_left (onTouchMove touches) (listeners h) h
    | TouchEnd _ => onTouchEnd h
    end.

Definition run (h : Hook) (evs : list Event) : Hook := fold_left dispatch evs h.

End Hook.

(** A freshly mounted hook. *)
Definition mounted (parent : DOMMatrix) : Hook :=
  mkHook (mkDom parent identity) None [].

(** The [angle] and [scale] computed refs. *)
Definition angle (h : Hook) : R :=
  match matrix h with
  | Some m => atan2 (b m) (a m) * (180 / PI)
  | None => 0
  end.

Definition scale (h : Hook) : R :=
  match matrix h with
  | Some m => sqrt (a m * a m + c m * c m)
  | None => 0
  end.

(** ** Vocabulary for the properties of the hook *)

(** The determinant of the linear part of a matrix. *)
Definition det (m : DOMMatrix) : R := a m * d m - b m * c m.




(** A listener registered by [onSingleTouch]. *)
Definition isSingle (l : Listener) : bool :=
  match l with SingleMove => true | DoubleMove _ => false end.

(** A [touchstart] with exactly two touches, the only event that starts a
    gesture. *)
Definition twoTouchStart (ev : Event) : bool :=
  match ev with
  | TouchStart touches => Nat.eqb (length touches) 2
  | _ => false
  end.





End Exact.

(* ================================================================== *)
(** * IEEE-754 binary64 arithmetic                                     *)
(* ================================================================== *)

Module IEEE.

(** A JavaScript number. *)
Definition float : Type := spec_float.

Definition prec : Z := 53.
Definition emax : Z := 1024.

Definition add : float -> float -> float := SFadd prec emax.
Definition sub : float -> float -> float := SFsub prec emax.
Definition mul : float -> float -> float := SFmul prec emax.
Definition div : float -> float -> float := SFdiv prec emax.
Definition opp : float -> float := SFopp.
Definition sqrt : float -> float := SFsqrt prec emax.

(** A number literal with an integer value. *)
Definition ofZ (n : Z) : float := binary_normalize prec emax n 0 false.

Definition zero : float := S754_zero false.
Definition infinity : float := S754_infinity false.
Definition nan : float := S754_nan.

Declare Scope js_scope.
Delimit Scope js_scope with js.
Infix "+" := add : js_scope.
Infix "-" := sub : js_scope.
Infix "*" := mul : js_scope.
Infix "/" := div : js_scope.
Notation "- v" := (opp v) : js_scope.
Local Open Scope js_scope.

(** [Number.isFinite]: neither NaN nor an infinity. *)
Definition isFinite (v : float) : bool :=
  match v with
  | S754_zero _ | S754_finite _ _ _ => true
  | S754_infinity _ | S754_nan => false
  end.

Definition isNaN (v : float) : bool :=
  match v with S754_nan => true | _ => false end.

(** [v == 0]: true of both zeros. *)
Definition isZero (v : float) : bool :=
  match v with S754_zero _ => true | _ => false end.

(** The negative zero. *)
Definition isNegZero (v : float) : bool :=
  match v with S754_zero true => true | _ => false end.

(** [v > 0]: false of the zeros and of NaN. *)
Definition isPositive (v : float) : bool :=
  match v with
  | S754_finite false _ _ | S754_infinity false => true
  | _ => false
  end.

(** The exponent of the smallest subnormal number. *)
Definition emin : Z := SpecFloat.emin prec emax.

(** A finite number of magnitude below [2^K]. *)
Definition within (K : Z) (v : float) : bool :=
  match v with
  | S754_zero _ => true
  | S754_finite _ m e =>
      Z.leb (Zpos (digits2_pos m) + e) K && Z.leb e (emax - prec)
  | S754_infinity _ | S754_nan => false
  end.

(** A finite number of magnitude at least [2^(L-1)] and below [2^K]. *)
Definition between (L K : Z) (v : float) : bool :=
  match v with
  | S754_finite _ m e =>
      Z.leb L (Zpos (digits2_pos m) + e) &&
      Z.leb (Zpos (digits2_pos m) + e) K && Z.leb e (emax - prec)
  | _ => false
  end.

Record Point : Type := mkPoint { x : float; y : float }.

Record MatrixProps : Type := mkProps
  { one : Point; two : Point; newOne : Point; newTwo : Point }.

Record DOMMatrix : Type := mkMatrix
  { a : float; b : float; c : float; d : float; e : float; f : float }.

Definition withinPoint (K : Z) (p : Point) : bool :=
  within K (x p) && within K (y p).

Definition finitePoint (p : Point) : bool := isFinite (x p) && isFinite (y p).

(** Every entry of the matrix is finite. *)
Definition finiteMatrix (m : DOMMatrix) : bool :=
  isFinite (a m) && isFinite (b m) && isFinite (c m) &&
  isFinite (d m) && isFinite (e m) && isFinite (f m).

(** [v || 0] for [v] a number or [undefined]: [undefined], both zeros and
    NaN are falsy. *)
Definition falsy (v : float) : bool := isZero v || isNaN v.

Definition orZero (v : option float) : float :=
  match v with
  | Some n => if falsy n then zero else n
  | None => zero
  end.

Record Touch : Type := mkTouch { pageX : float; pageY : float }.

Definition getTouchCoords (touch : option Touch) : Point :=
  mkPoint (orZero (option_map pageX touch)) (orZero (option_map pageY touch)).

(** The functions of [Math] are left to the engine (the language standard
    only asks for an approximation), so the transform maths takes them as
    parameters. *)
Section TransformMaths.

Variable hypot : float -> float -> float.

Definition getDistance (pointOne pointTwo : Point) : float :=
  hypot (x pointOne - x pointTwo) (y pointOne - y pointTwo).

Definition getZoomMatrix (p : MatrixProps) : DOMMatrix :=
  let d := getDistance (newOne p) (newTwo p) / getDistance (one p) (two p) in
  let cx := (x (newOne p) + x (newTwo p)) / ofZ 2 in
  let cy := (y (newOne p) + y (newTwo p)) / ofZ 2 in
  let tx := cx - d * ((x (one p) + x (two p)) / ofZ 2) in
  let ty := cy - d * ((y (one p) + y (two p)) / ofZ 2) in
  mkMatrix d zero zero d tx ty.

Variable atan2 : float -> float -> float.
Variables cos sin : float -> float.

Definition getMatrix (p : MatrixProps) : DOMMatrix :=
  let d := getDistance (newOne p) (newTwo p) / getDistance (one p) (two p) in
  let cx := (x (newOne p) + x (newTwo p)) / ofZ 2 in
  let cy := (y (newOne p) + y (newTwo p)) / ofZ 2 in
  let atan := atan2 (y (two p) - y (one p)) (x (two p) - x (one p)) in
  let newAtan :=
    atan2 (y (newTwo p) - y (newOne p)) (x (newTwo p) - x (newOne p)) in
  let c := cos (newAtan - atan) in
  let s := sin (newAtan - atan) in
  let tx := cx - d * ((x (one p) + x (two p)) / ofZ 2) * c
               + d * ((y (one p) + y (two p)) / ofZ 2) * s in
  let ty := cy - d * ((y (one p) + y (two p)) / ofZ 2) * c
               - d * ((x (one p) + x (two p)) / ofZ 2) * s in
  mkMatrix (d * c) (d * s) (- d * s) (d * c) tx ty.

End TransformMaths.

(** [Math.hypot] by its defining formula, to run the model on inputs where
    the formula is exact. *)
Definition hypotFormula (u v : float) : float := sqrt (u * u + v * v).

(** A point with integer coordinates. *)
Definition pointZ (u v : Z) : Point := mkPoint (ofZ u) (ofZ v).

(** The scenario of the specification. *)
Definition scenario : MatrixProps :=
  mkProps (pointZ 0 0) (pointZ 10 0) (pointZ 0 0) (pointZ 20 0).

(** Two fingers that start one pixel apart and end at the two ends of the
    number line, [-2^1023] and [2^1023]. *)
Definition farApart : MatrixProps :=
  mkProps (pointZ 0 0) (pointZ 1 0)
          (pointZ (- 2 ^ 1023) 0) (pointZ (2 ^ 1023) 0).

End IEEE.

(* ================================================================== *)
(** * Properties in exact arithmetic                                   *)
(* ================================================================== *)

Section ExactFacts.

Import Exact.
Local Open Scope R_scope.

(** ** [Math.hypot] and [getDistance] *)


Lemma hypot_scale (k u v : R) : 0 <= k -> hypot (k * u) (k * v) = k * hypot u v.
Proof.
  intros Hk. unfold hypot.
  replace (k * u * (k * u) + k * v * (k * v)) with (k * k * (u * u + v * v)) by ring.
  rewrite sqrt_mult; [ | nra | nra ].
  now rewrite sqrt_square.
Qed.








(** An isotropic scale by [k >= 0] followed by a translation multiplies
    every distance by [k]. *)
Lemma getDistance_scale (k tx ty : R) (p q : Point) :
  0 <= k ->
  getDistance (transformPoint (mkMatrix k 0 0 k tx ty) p)
              (transformPoint (mkMatrix k 0 0 k tx ty) q)
  = k * getDistance p q.
Proof.
  intros Hk. unfold getDistance, transformPoint; simpl.
  rewrite <- hypot_scale by exact Hk. f_equal; ring.
Qed.


(** ** C1 *)



(** ** C7 *)

Lemma hypot_axis (u : R) : hypot u 0 = Rabs u.
Proof.
  unfold hypot. replace (u * u + 0 * 0) with (Rsqr u) by (unfold Rsqr; ring).
  apply sqrt_Rsqr_abs.
Qed.

Lemma scenario_value : getZoomMatrix scenario = mkMatrix 2 0 0 2 0 0.
Proof.
  unfold getZoomMatrix, scenario, getDistance; simpl.
  replace (0 - 10) with (- (10)) by ring.
  replace (0 - 20) with (- (20)) by ring.
  replace (0 - 0) with 0 by ring.
  rewrite !hypot_axis, !Rabs_Ropp, !Rabs_pos_eq by lra.
  f_equal; field.
Qed.

(** C7 (as stated): on the scenario [getZoomMatrix] does not return
    [[2, 0, 0, 2, -5, 0]]; its translation is [0], not [-5]. *)
Lemma scenario_not_minus_five :
  getZoomMatrix scenario <> mkMatrix 2 0 0 2 (-5) 0.
Proof.
  rewrite scenario_value. intros H. inversion H. lra.
Qed.

(** C7 (amended): on the scenario [getZoomMatrix] returns
    [[2, 0, 0, 2, 0, 0]], which doubles every distance and maps the midpoint
    [(5, 0)] of the start points to the midpoint [(10, 0)] of the new ones. *)
Theorem scenario_scale_two :
  getZoomMatrix scenario = mkMatrix 2 0 0 2 0 0 /\
  (forall p q : Point,
     getDistance (transformPoint (getZoomMatrix scenario) p)
                 (transformPoint (getZoomMatrix scenario) q)
     = 2 * getDistance p q) /\
  midpoint (one scenario) (two scenario) = mkPoint 5 0 /\
  transformPoint (getZoomMatrix scenario) (mkPoint 5 0) = mkPoint 10 0.
Proof.
  rewrite scenario_value. repeat split.
  - intros p q. apply getDistance_scale. lra.
  - unfold midpoint, scenario; simpl. f_equal; field.
  - unfold transformPoint; simpl. f_equal; ring.
Qed.

(** ** [Math.atan2] is the polar angle *)









(** ** C2 *)



(** ** C5 *)



(** ** C6 *)



(** ** C9 *)



(** ** C8 *)

Lemma atan2_0_1 : atan2 0 1 = 0.
Proof.
  unfold atan2. destruct (total_order_T 1 0) as [[H | H] | H]; try lra.
  unfold Rdiv. rewrite Rmult_0_l. apply atan_0.
Qed.

(** C8: with a matrix [m] set, [angle] is [atan2(m.b, m.a) * 180/PI] and
    [scale] is [sqrt(m.a^2 + m.c^2)]; with no matrix set both are [0]; on
    the identity matrix they are [0] and [1]. *)
Theorem angle_scale_accessors :
  (forall (dm : Dom) (m : DOMMatrix) (ls : list Listener),
     angle (mkHook dm (Some m) ls) = atan2 (b m) (a m) * (180 / PI) /\
     scale (mkHook dm (Some m) ls) = sqrt (Rsqr (a m) + Rsqr (c m))) /\
  (forall (dm : Dom) (ls : list Listener),
     angle (mkHook dm None ls) = 0 /\ scale (mkHook dm None ls) = 0) /\
  (forall (dm : Dom) (ls : list Listener),
     angle (mkHook dm (Some identity) ls) = 0 /\
     scale (mkHook dm (Some identity) ls) = 1).
Proof.
  repeat split.
  - unfold angle; simpl. rewrite atan2_0_1. ring.
  - unfold scale; simpl.
    replace (1 * 1 + 0 * 0) with 1 by ring. apply sqrt_1.
Qed.

(** ** C3 *)


Section Gesture.

Variable props : Props.

Lemma onTouchMove_listeners (touches : TouchList) (l : Listener) (h : Hook) :
  listeners (onTouchMove props touches h l) = listeners h.
Proof. destruct l; reflexivity. Qed.


Lemma fold_onTouchMove_listeners (touches : TouchList) (ls : list Listener) :
  forall h : Hook,
    listeners (fold_left (onTouchMove props touches) ls h) = listeners h.
Proof.
  induction ls as [ | l ls IH]; intros h; simpl; [reflexivity | ].
  rewrite IH. apply onTouchMove_listeners.
Qed.

Lemma watchEffect_listeners (h : Hook) : listeners (watchEffect h) = listeners h.
Proof. unfold watchEffect. destruct (matrix h); reflexivity. Qed.

Lemma watchEffect_matrix (h : Hook) : matrix (watchEffect h) = matrix h.
Proof. unfold watchEffect. destruct (matrix h) eqn:E; simpl; congruence. Qed.

(** A [touchmove] while the handler of a two-finger gesture is the listener
    registered last: the listeners stay, and the [matrix] ref becomes the
    incremental matrix times the matrix of the gesture's [initialState]. *)
Lemma dispatch_move (h : Hook) (ls : list Listener) (st : InitialState.t)
      (touches : TouchList) :
  listeners h = ls ++ [DoubleMove st] ->
  listeners (dispatch props h (TouchMove touches)) = ls ++ [DoubleMove st] /\
  matrix (dispatch props h (TouchMove touches))
    = Some (multiply (newMatrix props st touches) (InitialState.matrix st)).
Proof.
  intros Hls. unfold dispatch.
  rewrite watchEffect_listeners, watchEffect_matrix.
  rewrite fold_onTouchMove_listeners. split; [exact Hls | ].
  rewrite Hls, fold_left_app. reflexivity.
Qed.

Lemma run_moves (st : InitialState.t) (ls : list Listener) (last : TouchList) :
  forall (moves : list TouchList) (h : Hook),
    listeners h = ls ++ [DoubleMove st] ->
    matrix (run props h (map TouchMove (moves ++ [last])))
      = Some (multiply (newMatrix props st last) (InitialState.matrix st)).
Proof.
  induction moves as [ | mv moves IH]; intros h Hls.
  - simpl. apply (dispatch_move h ls st last Hls).
  - simpl. apply IH. apply (dispatch_move h ls st mv Hls).
Qed.

Lemma dispatch_start_two (h : Hook) (t1 t2 : Touch) :
  listeners (dispatch props h (TouchStart [t1; t2]))
  = listeners h
    ++ [DoubleMove (InitialState.make (getTouchCoords (Some t1))
                                      (getTouchCoords (Some t2))
                                      (getCurrentMatrix (dom h)))].
Proof. unfold dispatch. rewrite watchEffect_listeners. reflexivity. Qed.

(** C3: after a [touchstart] with two touches, every [touchmove] sets the
    current transform to [incremental.multiply(base)]: [base] is the matrix
    read once at the [touchstart], whatever moves came in between, and
    [incremental] comes from [getMatrix] when [isRotatable] is true and from
    [getZoomMatrix] otherwise, on the start points and the points of this
    move. *)
Theorem two_finger_move_from_base (h : Hook) (t1 t2 : Touch)
        (moves : list TouchList) (last : TouchList) :
  let base := getCurrentMatrix (dom h) in
  let matrixParams :=
    mkProps (getTouchCoords (Some t1)) (getTouchCoords (Some t2))
            (getTouchCoords (item last 0)) (getTouchCoords (item last 1)) in
  let incremental :=
    match isRotatable props with
    | Some true => getMatrix matrixParams
    | _ => getZoomMatrix matrixParams
    end in
  matrix (run props h (TouchStart [t1; t2] :: map TouchMove (moves ++ [last])))
  = Some (multiply incremental base).
Proof.
  intros base matrixParams incremental.
  change (run props h (TouchStart [t1; t2] :: map TouchMove (moves ++ [last])))
    with (run props (dispatch props h (TouchStart [t1; t2]))
              (map TouchMove (moves ++ [last]))).
  rewrite (run_moves _ (listeners h) last moves _ (dispatch_start_two h t1 t2)).
  unfold newMatrix, truthy; simpl.
  unfold incremental, matrixParams, base.
  destruct (isRotatable props) as [[ | ] | ]; reflexivity.
Qed.

End Gesture.

(** ** C10 *)

(** C10 (as stated): a touch with one falsy coordinate does not give the
    origin; only that coordinate is [0]. *)
Lemma falsy_coordinate_not_origin :
  getTouchCoords (Some (mkTouch 0 5)) <> mkPoint 0 0.
Proof.
  unfold getTouchCoords, orZero; simpl.
  destruct (Req_dec_T 5 0) as [H | H]; [lra | ].
  intros E. inversion E. lra.
Qed.

Lemma orZero_Some (n : R) : orZero (Some n) = n.
Proof. unfold orZero. destruct (Req_dec_T n 0) as [-> | _]; reflexivity. Qed.

(** C10 (amended): [getTouchCoords] is total.  For a touch missing from the
    list it returns the origin; for a touch that is there it returns its
    coordinates, a falsy coordinate as [0] and the other one unchanged; and
    a move whose list has no second touch computes the incremental matrix
    with [(0, 0)] as that finger's position. *)
Theorem getTouchCoords_default :
  (forall (touches : TouchList) (i : nat),
     (length touches <= i)%nat ->
     getTouchCoords (item touches i) = mkPoint 0 0) /\
  (forall t : Touch,
     (pageX t = 0 -> x (getTouchCoords (Some t)) = 0) /\
     (pageY t = 0 -> y (getTouchCoords (Some t)) = 0) /\
     getTouchCoords (Some t) = mkPoint (pageX t) (pageY t)) /\
  (forall (props : Props) (st : InitialState.t) (touches : TouchList),
     (length touches <= 1)%nat ->
     newMatrix props st touches
     = let matrixParams :=
         mkProps (InitialState.touchOne st) (InitialState.touchTwo st)
                 (getTouchCoords (item touches 0)) (mkPoint 0 0) in
       if truthy (isRotatable props)
       then getMatrix matrixParams else getZoomMatrix matrixParams).
Proof.
  assert (Hmiss : forall (touches : TouchList) (i : nat),
             (length touches <= i)%nat ->
             getTouchCoords (item touches i) = mkPoint 0 0).
  { intros touches i Hlen. unfold item.
    now rewrite (proj2 (nth_error_None touches i) Hlen). }
  split; [exact Hmiss | split].
  - intros t. unfold getTouchCoords. cbn [option_map].
    rewrite !orZero_Some. simpl. repeat split; intros H; exact H.
  - intros props st touches Hlen. unfold newMatrix.
    now rewrite (Hmiss touches 1%nat Hlen).
Qed.

(** C10 at a list with a single touch, read at index [1]. *)
Lemma getTouchCoords_default_witness :
  (length [mkTouch 3 4] <= 1)%nat /\
  getTouchCoords (item [mkTouch 3 4] 1) = mkPoint 0 0.
Proof.
  split; [simpl; lia | ].
  apply (proj1 getTouchCoords_default [mkTouch 3 4] 1%nat). simpl; lia.
Defined.

End ExactFacts.

(* ================================================================== *)
(** * Properties in binary64 arithmetic                                *)
(* ================================================================== *)

Section IEEEFacts.

Import IEEE.
Local Open Scope js_scope.

(** ** Non-finite values propagate *)

Lemma div_zero_not_finite (u z : float) :
  isZero z = true -> isFinite (u / z) = false.
Proof. destruct z; try discriminate. intros _. destruct u; reflexivity. Qed.

Lemma mul_not_finite_l (u v : float) :
  isFinite u = false -> isFinite (u * v) = false.
Proof. destruct u; try discriminate; intros _; destruct v; reflexivity. Qed.

Lemma opp_not_finite (u : float) : isFinite u = false -> isFinite (- u) = false.
Proof. destruct u; try discriminate; reflexivity. Qed.

Lemma add_not_finite_r (u v : float) :
  isFinite v = false -> isFinite (u + v) = false.
Proof.
  destruct v as [ | sv | | ]; try discriminate; intros _.
  - destruct u as [ | [ | ] | | ]; destruct sv; reflexivity.
  - destruct u; reflexivity.
Qed.

Lemma sub_not_finite_r (u v : float) :
  isFinite v = false -> isFinite (u - v) = false.
Proof.
  destruct v as [ | sv | | ]; try discriminate; intros _.
  - destruct u as [ | [ | ] | | ]; destruct sv; reflexivity.
  - destruct u; reflexivity.
Qed.

(** With the start points at distance zero, every entry of the matrix that
    the scale factor reaches is NaN or an infinity. *)
Lemma zero_distance_entries
      (hypot atan2 : float -> float -> float) (cos sin : float -> float)
      (p : MatrixProps) :
  isZero (getDistance hypot (one p) (two p)) = true ->
  (isFinite (a (getZoomMatrix hypot p)) = false /\
   isFinite (d (getZoomMatrix hypot p)) = false /\
   isFinite (e (getZoomMatrix hypot p)) = false /\
   isFinite (f (getZoomMatrix hypot p)) = false) /\
  (isFinite (a (getMatrix hypot atan2 cos sin p)) = false /\
   isFinite (b (getMatrix hypot atan2 cos sin p)) = false /\
   isFinite (c (getMatrix hypot atan2 cos sin p)) = false /\
   isFinite (d (getMatrix hypot atan2 cos sin p)) = false /\
   isFinite (e (getMatrix hypot atan2 cos sin p)) = false /\
   isFinite (f (getMatrix hypot atan2 cos sin p)) = false).
Proof.
  intros Hz.
  pose proof (div_zero_not_finite (getDistance hypot (newOne p) (newTwo p)) _ Hz)
    as Hk.
  unfold getZoomMatrix, getMatrix. cbn [a b c d e f].
  repeat split;
    repeat first
      [ exact Hk
      | apply add_not_finite_r
      | apply sub_not_finite_r
      | apply mul_not_finite_l
      | apply opp_not_finite ].
Qed.

Lemma finiteMatrix_false (m : DOMMatrix) :
  isFinite (a m) = false -> finiteMatrix m = false.
Proof. intros H. unfold finiteMatrix. now rewrite H. Qed.

(** ** Digits of a mantissa *)

Local Open Scope Z_scope.

Ltac float_consts :=
  assert (emin = -1074) by reflexivity;
  assert (prec = 53) by reflexivity;
  assert (emax = 1024) by reflexivity.

Lemma digits2_size (p : positive) : digits2_pos p = Pos.size p.
Proof. induction p; simpl; congruence. Qed.

Lemma Zdigits2_nonneg (m : Z) : 0 <= Zdigits2 m.
Proof. destruct m; simpl; lia. Qed.

Lemma digits2_upper (p : positive) : Zpos p < 2 ^ Zpos (digits2_pos p).
Proof.
  rewrite digits2_size. pose proof (Pos.size_gt p) as H.
  rewrite <- Pos2Z.inj_pow. lia.
Qed.

Lemma digits2_lower (p : positive) : 2 ^ Zpos (digits2_pos p) <= 2 * Zpos p.
Proof.
  rewrite digits2_size. pose proof (Pos.size_le p) as H.
  rewrite <- Pos2Z.inj_pow. lia.
Qed.

Lemma Zdigits2_bound (m k : Z) : 0 <= m < 2 ^ k -> 0 <= k -> Zdigits2 m <= k.
Proof.
  intros [Hm Hlt] Hk. destruct m as [ | p | p]; simpl; try lia.
  pose proof (digits2_lower p) as Hlow.
  destruct (Z_lt_le_dec k (Zpos (digits2_pos p))) as [Hc | Hc]; [ | lia].
  exfalso.
  assert (H : 2 ^ (k + 1) <= 2 ^ Zpos (digits2_pos p))
    by (apply Z.pow_le_mono_r; lia).
  rewrite Z.pow_add_r in H by lia. lia.
Qed.

Lemma digits2_succ (p : positive) :
  Zpos (digits2_pos (Pos.succ p)) <= Zpos (digits2_pos p) + 1.
Proof. induction p; simpl; lia. Qed.

Lemma digits2_mul (p q : positive) :
  Zpos (digits2_pos (p * q)) <= Zpos (digits2_pos p) + Zpos (digits2_pos q).
Proof.
  apply (Zdigits2_bound (Zpos (p * q))); [ | lia].
  pose proof (digits2_upper p). pose proof (digits2_upper q).
  rewrite Z.pow_add_r by lia. rewrite Pos2Z.inj_mul. nia.
Qed.

Lemma iter_xO_digits (n m : positive) :
  Zpos (digits2_pos (Pos.iter xO m n)) = Zpos (digits2_pos m) + Zpos n.
Proof.
  induction n as [ | n IH] using Pos.peano_ind.
  - simpl. lia.
  - rewrite Pos.iter_succ. cbn [digits2_pos]. lia.
Qed.

(** ** Rounding to the format *)

Lemma shr_1_digits (r : shr_record) :
  0 <= shr_m r ->
  0 <= shr_m (shr_1 r) /\
  Zdigits2 (shr_m (shr_1 r)) = Z.max 0 (Zdigits2 (shr_m r) - 1).
Proof.
  destruct r as [m rb sb]. simpl. intros Hm.
  destruct m as [ | [q | q | ] | q];
    cbn [shr_m shr_1 Zdigits2 digits2_pos]; split; lia.
Qed.

Lemma iter_shr_1_digits (n : positive) :
  forall r : shr_record,
    0 <= shr_m r ->
    0 <= shr_m (iter_pos shr_1 n r) /\
    Zdigits2 (shr_m (iter_pos shr_1 n r))
    = Z.max 0 (Zdigits2 (shr_m r) - Zpos n).
Proof.
  induction n as [n IH | n IH | ]; intros r Hr; simpl iter_pos.
  - destruct (shr_1_digits r Hr) as [H1 E1].
    destruct (IH _ H1) as [H2 E2]. destruct (IH _ H2) as [H3 E3].
    split; [exact H3 | ]. rewrite E3, E2, E1. lia.
  - destruct (IH _ Hr) as [H2 E2]. destruct (IH _ H2) as [H3 E3].
    split; [exact H3 | ]. rewrite E3, E2. lia.
  - apply shr_1_digits. exact Hr.
Qed.

Lemma shr_record_of_loc_m (m : Z) (l : location) :
  shr_m (shr_record_of_loc m l) = m.
Proof. destruct l as [ | [ | | ]]; reflexivity. Qed.

(** A shift to the format keeps the mantissa nonnegative, moves the
    exponent up to [fexp] and does not increase the magnitude. *)
Lemma shr_fexp_spec (m ex : Z) (l : location) :
  0 <= m ->
  let r := shr_fexp prec emax m ex l in
  0 <= shr_m (fst r) /\
  snd r = Z.max ex (fexp prec emax (Zdigits2 m + ex)) /\
  Zdigits2 (shr_m (fst r)) + snd r <= Z.max (Zdigits2 m + ex) (snd r).
Proof.
  intros Hm r. unfold r, shr_fexp, shr.
  destruct (fexp prec emax (Zdigits2 m + ex) - ex) as [ | n | n] eqn:En;
    simpl fst; simpl snd.
  - rewrite shr_record_of_loc_m. lia.
  - destruct (iter_shr_1_digits n (shr_record_of_loc m l)) as [H0 E0].
    { now rewrite shr_record_of_loc_m. }
    rewrite shr_record_of_loc_m in E0. rewrite E0. lia.
  - rewrite shr_record_of_loc_m. lia.
Qed.

Lemma round_nearest_even_spec (m : Z) (l : location) :
  0 <= m ->
  0 <= round_nearest_even m l /\
  Zdigits2 (round_nearest_even m l) <= Zdigits2 m + 1.
Proof.
  intros Hm.
  assert (Hs : 0 <= m + 1 /\ Zdigits2 (m + 1) <= Zdigits2 m + 1).
  { destruct m as [ | q | q]; simpl; try lia.
    rewrite Pos.add_1_r. pose proof (digits2_succ q). lia. }
  unfold round_nearest_even.
  destruct l as [ | [ | | ]]; try destruct (Z.even m); try lia; exact Hs.
Qed.

(** Rounding a nonnegative mantissa of magnitude below [2^K], [K < emax],
    does not overflow. *)
Lemma binary_round_aux_within (s : bool) (m ex K : Z) (l : location) :
  0 <= m -> ex <= emax - prec -> Zdigits2 m + ex <= K ->
  emin <= K -> K < emax ->
  within (K + 1) (binary_round_aux prec emax s m ex l) = true.
Proof.
  intros Hm He Hd HK1 HK2. unfold binary_round_aux.
  pose proof (shr_fexp_spec m ex l Hm) as H1. cbv zeta in H1.
  destruct (shr_fexp prec emax m ex l) as [r1 e1].
  simpl fst in H1; simpl snd in H1. destruct H1 as (Hr1 & He1 & Hd1).
  destruct (round_nearest_even_spec (shr_m r1) (loc_of_shr_record r1) Hr1)
    as [Hm2 Hd2].
  set (m2 := round_nearest_even (shr_m r1) (loc_of_shr_record r1)) in *.
  pose proof (shr_fexp_spec m2 e1 loc_Exact Hm2) as H2. cbv zeta in H2.
  destruct (shr_fexp prec emax m2 e1 loc_Exact) as [r2 e2].
  simpl fst in H2; simpl snd in H2. destruct H2 as (Hr2 & He2 & Hd3).
  pose proof (Zdigits2_nonneg m) as Hdm.
  unfold fexp in He1, He2. fold emin in He1, He2. float_consts.
  destruct (shr_m r2) as [ | m3 | m3] eqn:Em3; [reflexivity | | lia].
  destruct (Z.leb e2 (emax - prec)) eqn:Ele.
  - unfold within. apply andb_true_intro. split; [ | exact Ele].
    apply Z.leb_le. simpl Zdigits2 in Hd3. lia.
  - apply Z.leb_gt in Ele. exfalso. lia.
Qed.

Lemma shl_align_spec (m : positive) (ex t : Z) :
  snd (shl_align m ex t) = Z.min ex t /\
  Zpos (digits2_pos (fst (shl_align m ex t))) + snd (shl_align m ex t)
  = Zpos (digits2_pos m) + ex.
Proof.
  unfold shl_align. destruct (t - ex) as [ | n | n] eqn:Ed; cbn [fst snd].
  - lia.
  - lia.
  - rewrite iter_xO_digits. lia.
Qed.

Lemma binary_round_within (s : bool) (m : positive) (ex K : Z) :
  ex <= emax - prec -> Zpos (digits2_pos m) + ex <= K ->
  emin <= K -> K < emax ->
  within (K + 1) (binary_round prec emax s m ex) = true.
Proof.
  intros He Hd HK1 HK2. unfold binary_round.
  destruct (shl_align_spec m ex (fexp prec emax (Z.pos (digits2_pos m) + ex)))
    as [Hs Hg].
  destruct (shl_align m ex (fexp prec emax (Z.pos (digits2_pos m) + ex)))
    as [mz ez].
  cbn [fst snd] in Hs, Hg.
  apply binary_round_aux_within; cbn [Zdigits2]; lia.
Qed.

(** Normalising an integer of magnitude below [2^(K+1-ex)] at exponent
    [ex]. *)
Lemma binary_normalize_within (n ex K : Z) :
  ex <= emax - prec -> ex <= K ->
  - 2 ^ (K + 1 - ex) < n < 2 ^ (K + 1 - ex) ->
  emin <= K + 1 -> K + 1 < emax ->
  within (K + 2) (binary_normalize prec emax n ex false) = true.
Proof.
  intros He HeK Hn HK1 HK2. unfold binary_normalize.
  replace (K + 2) with (K + 1 + 1) by ring.
  destruct n as [ | m | m]; [reflexivity | | ].
  - apply binary_round_within; try lia.
    pose proof (Zdigits2_bound (Zpos m) (K + 1 - ex)) as Hb.
    cbn [Zdigits2] in Hb. lia.
  - apply binary_round_within; try lia.
    pose proof (Zdigits2_bound (Zpos m) (K + 1 - ex)) as Hb.
    cbn [Zdigits2] in Hb. lia.
Qed.

Lemma aligned_bound (s : bool) (m : positive) (ex t K : Z) :
  t <= ex -> Zpos (digits2_pos m) + ex <= K ->
  - 2 ^ (K - t) < cond_Zopp s (Zpos (fst (shl_align m ex t))) < 2 ^ (K - t).
Proof.
  intros Ht Hd.
  destruct (shl_align_spec m ex t) as [Hs Hg].
  pose proof (digits2_upper (fst (shl_align m ex t))) as Hup.
  assert (Hle : 2 ^ Zpos (digits2_pos (fst (shl_align m ex t))) <= 2 ^ (K - t))
    by (apply Z.pow_le_mono_r; lia).
  destruct s; cbn [cond_Zopp]; lia.
Qed.

(** ** The four operations on bounded operands *)

Lemma within_mono (K K' : Z) (v : float) :
  K <= K' -> within K v = true -> within K' v = true.
Proof.
  intros HK. destruct v as [ | | | s m ex]; cbn [within]; try easy.
  rewrite !andb_true_iff, !Z.leb_le. lia.
Qed.

Lemma within_finite (K : Z) (v : float) : within K v = true -> isFinite v = true.
Proof. destruct v; simpl; easy. Qed.

Lemma opp_within (K : Z) (v : float) :
  within K v = true -> within K (opp v) = true.
Proof. destruct v; simpl; easy. Qed.

Lemma mul_within (Ku Kv : Z) (u v : float) :
  within Ku u = true -> within Kv v = true ->
  emin <= Ku + Kv -> Ku + Kv <= emax - prec ->
  within (Ku + Kv + 1) (mul u v) = true.
Proof.
  intros Hu Hv Hlo Hhi. float_consts.
  destruct u as [su | | | su mu eu], v as [sv | | | sv mv ev];
    try discriminate; try reflexivity.
  cbn [within] in Hu, Hv. rewrite !andb_true_iff, !Z.leb_le in Hu, Hv.
  unfold mul, SFmul.
  pose proof (digits2_mul mu mv) as Hd.
  apply binary_round_aux_within; simpl Zdigits2; lia.
Qed.

Lemma add_within (K : Z) (u v : float) :
  within K u = true -> within K v = true ->
  emin <= K + 1 -> K + 1 < emax ->
  within (K + 2) (add u v) = true.
Proof.
  intros Hu Hv Hlo Hhi. float_consts.
  assert (Hu' := within_mono K (K + 2) u ltac:(lia) Hu).
  assert (Hv' := within_mono K (K + 2) v ltac:(lia) Hv).
  destruct u as [su | | | su mu eu], v as [sv | | | sv mv ev];
    try discriminate; try assumption.
  - destruct su, sv; reflexivity.
  - cbn [within] in Hu, Hv. rewrite !andb_true_iff, !Z.leb_le in Hu, Hv.
    unfold add, SFadd.
    pose proof (aligned_bound su mu eu (Z.min eu ev) K ltac:(lia) ltac:(lia))
      as Bu.
    pose proof (aligned_bound sv mv ev (Z.min eu ev) K ltac:(lia) ltac:(lia))
      as Bv.
    apply binary_normalize_within; try lia.
    replace (K + 1 - Z.min eu ev) with (K - Z.min eu ev + 1) by ring.
    rewrite Z.pow_add_r by lia. lia.
Qed.

Lemma sub_within (K : Z) (u v : float) :
  within K u = true -> within K v = true ->
  emin <= K + 1 -> K + 1 < emax ->
  within (K + 2) (sub u v) = true.
Proof.
  intros Hu Hv Hlo Hhi. float_consts.
  assert (Hu' := within_mono K (K + 2) u ltac:(lia) Hu).
  assert (Hv' := within_mono K (K + 2) v ltac:(lia) Hv).
  destruct u as [su | | | su mu eu], v as [sv | | | sv mv ev];
    try discriminate; try assumption.
  - destruct su, sv; reflexivity.
  - cbn [within] in Hu, Hv. rewrite !andb_true_iff, !Z.leb_le in Hu, Hv.
    unfold sub, SFsub.
    pose proof (aligned_bound su mu eu (Z.min eu ev) K ltac:(lia) ltac:(lia))
      as Bu.
    pose proof (aligned_bound sv mv ev (Z.min eu ev) K ltac:(lia) ltac:(lia))
      as Bv.
    apply binary_normalize_within; try lia.
    replace (K + 1 - Z.min eu ev) with (K - Z.min eu ev + 1) by ring.
    rewrite Z.pow_add_r by lia. lia.
Qed.

(** The quotient of the mantissas: nonnegative, at an exponent no larger
    than the format's, and of magnitude below [2^(X+1)] where [X] is the
    difference of the magnitudes of the operands. *)
Lemma div_core_spec (mu mv : positive) (eu ev : Z) :
  let X := Zpos (digits2_pos mu) + eu - (Zpos (digits2_pos mv) + ev) in
  let r := SFdiv_core_binary prec emax (Zpos mu) eu (Zpos mv) ev in
  0 <= fst (fst r) /\
  snd (fst r) <= fexp prec emax X /\
  Zdigits2 (fst (fst r)) + snd (fst r) <= Z.max (X + 1) (snd (fst r)).
Proof.
  intros X r. unfold r, SFdiv_core_binary. cbn [Zdigits2]. fold X.
  set (e' := Z.min (fexp prec emax X) (eu - ev)).
  set (s := eu - ev - e').
  assert (Hs : 0 <= s) by (unfold s, e'; lia).
  set (m' := match s with
             | Z.pos _ => Z.shiftl (Z.pos mu) s
             | 0 => Z.pos mu
             | Z.neg _ => 0
             end).
  assert (Hm' : m' = Zpos mu * 2 ^ s).
  { unfold m'. destruct s as [ | n | n] eqn:Es; [simpl; lia | | lia].
    apply Z.shiftl_mul_pow2. lia. }
  pose proof (Z_div_mod m' (Zpos mv) ltac:(lia)) as Hdm.
  destruct (Z.div_eucl m' (Z.pos mv)) as [q rm]. cbn [fst snd].
  destruct Hdm as [Heq Hrm].
  pose proof (digits2_upper mu) as Hup.
  pose proof (digits2_lower mv) as Hlow.
  set (du := Zpos (digits2_pos mu)) in *.
  set (dv := Zpos (digits2_pos mv)) in *.
  assert (Hq : 0 <= q) by nia.
  split; [exact Hq | split; [unfold e'; lia | ]].
  assert (Hpow : 2 ^ dv = 2 * 2 ^ (dv - 1)).
  { replace dv with (dv - 1 + 1) at 1 by ring.
    rewrite Z.pow_add_r; unfold dv; lia. }
  assert (HQ : 0 < 2 ^ (dv - 1)) by (apply Z.pow_pos_nonneg; unfold dv; lia).
  assert (Hlt : q * 2 ^ (dv - 1) < 2 ^ (du + s)).
  { rewrite Z.pow_add_r by (unfold du; lia).
    assert (0 < 2 ^ s) by (apply Z.pow_pos_nonneg; lia). nia. }
  destruct (Z_le_gt_dec 0 (du + s - dv + 1)) as [Ht | Ht].
  - assert (Hb : Zdigits2 q <= du + s - dv + 1).
    { apply Zdigits2_bound; [ | exact Ht]. split; [exact Hq | ].
      replace (du + s) with (dv - 1 + (du + s - dv + 1)) in Hlt by ring.
      rewrite Z.pow_add_r in Hlt by (unfold dv; lia). nia. }
    unfold X. fold du dv. unfold s in Hb. lia.
  - assert (Hq0 : q = 0).
    { assert (2 ^ (du + s) <= 2 ^ (dv - 1)) by (apply Z.pow_le_mono_r; lia).
      nia. }
    rewrite Hq0. cbn [Zdigits2]. lia.
Qed.

Lemma div_within (Ku Lv Kv : Z) (u v : float) :
  within Ku u = true -> between Lv Kv v = true ->
  emin <= Ku - Lv + 1 -> Ku - Lv + 1 < emax ->
  within (Ku - Lv + 2) (div u v) = true.
Proof.
  intros Hu Hv Hlo Hhi. float_consts.
  destruct v as [ | | | sv mv ev]; try discriminate.
  destruct u as [su | | | su mu eu]; try discriminate; [reflexivity | ].
  cbn [within between] in Hu, Hv. rewrite !andb_true_iff, !Z.leb_le in Hu, Hv.
  unfold div, SFdiv.
  pose proof (div_core_spec mu mv eu ev) as Hc. cbv zeta in Hc.
  destruct (SFdiv_core_binary prec emax (Z.pos mu) eu (Z.pos mv) ev)
    as [[q e'] l].
  cbn [fst snd] in Hc. destruct Hc as (Hq & He' & Hd).
  unfold fexp in He'. fold emin in He'.
  replace (Ku - Lv + 2) with (Ku - Lv + 1 + 1) by ring.
  apply binary_round_aux_within; lia.
Qed.

Lemma half_within (K : Z) (u : float) :
  within K u = true -> emin <= K - 1 -> K - 1 < emax ->
  within K (div u (ofZ 2)) = true.
Proof.
  intros Hu Hlo Hhi.
  replace K with (K - 2 + 2) at 1 by ring.
  apply (div_within K 2 2); [exact Hu | reflexivity | lia | lia].
Qed.

(** ** Bounded gestures give finite matrices *)

Section BoundedInputs.

Variable hypot : float -> float -> float.
Variable atan2 : float -> float -> float.
Variables cos sin : float -> float.
Variable p : MatrixProps.
Variables K L : Z.

Hypothesis HK : 0 <= K.
Hypothesis HL : 0 <= L.
Hypothesis Hsize : K + 2 * L + 11 <= emax - prec.
Hypothesis Hone : withinPoint K (one p) = true.
Hypothesis Htwo : withinPoint K (two p) = true.
Hypothesis HnewOne : withinPoint K (newOne p) = true.
Hypothesis HnewTwo : withinPoint K (newTwo p) = true.
Hypothesis HD : between (- L) L (getDistance hypot (one p) (two p)) = true.
Hypothesis HN : within L (getDistance hypot (newOne p) (newTwo p)) = true.
Hypothesis Hatan2 :
  forall u v : float,
    isFinite u = true -> isFinite v = true -> within 2 (atan2 u v) = true.
Hypothesis Hcos : forall t : float, isFinite t = true -> within 1 (cos t) = true.
Hypothesis Hsin : forall t : float, isFinite t = true -> within 1 (sin t) = true.

Local Abbreviation Kd := (L + L + 2).
Local Abbreviation Kt := (L + L + 2 + (K + 2) + 1).
Local Abbreviation scaleFactor :=
  (div (getDistance hypot (newOne p) (newTwo p))
       (getDistance hypot (one p) (two p))).

Ltac lift H := refine (within_mono _ _ _ _ H); lia.

Lemma scale_within : within Kd scaleFactor = true.
Proof.
  float_consts.
  replace (L + L + 2) with (L - - L + 2) by ring.
  apply (div_within L (- L) L); [exact HN | exact HD | lia | lia].
Qed.

Lemma mean_within (u v : float) :
  within K u = true -> within K v = true ->
  within (K + 2) (div (add u v) (ofZ 2)) = true.
Proof.
  intros Hu Hv. float_consts.
  apply half_within; [ | lia | lia].
  apply add_within; [exact Hu | exact Hv | lia | lia].
Qed.

Lemma scaled_mean_within (u v : float) :
  within K u = true -> within K v = true ->
  within Kt (mul scaleFactor (div (add u v) (ofZ 2))) = true.
Proof.
  intros Hu Hv. float_consts.
  apply mul_within; [apply scale_within | now apply mean_within | | ]; lia.
Qed.

Lemma getZoomMatrix_finite : finiteMatrix (getZoomMatrix hypot p) = true.
Proof.
  float_consts.
  unfold withinPoint in Hone, Htwo, HnewOne, HnewTwo.
  apply andb_true_iff in Hone, Htwo, HnewOne, HnewTwo.
  destruct Hone as [H1x H1y], Htwo as [H2x H2y],
           HnewOne as [H3x H3y], HnewTwo as [H4x H4y].
  pose proof scale_within as Hd.
  assert (Htx : forall c0 c1 u v : float,
             within K c0 = true -> within K c1 = true ->
             within K u = true -> within K v = true ->
             within (Kt + 2)
               (sub (div (add c0 c1) (ofZ 2))
                    (mul scaleFactor (div (add u v) (ofZ 2)))) = true).
  { intros c0 c1 u v Hc0 Hc1 Hu Hv.
    pose proof (mean_within c0 c1 Hc0 Hc1) as Hm.
    pose proof (scaled_mean_within u v Hu Hv) as Hs.
    apply sub_within; [ | exact Hs | | ]; try lia.
    lift Hm. }
  unfold finiteMatrix, getZoomMatrix. cbn [a b c d e f].
  rewrite (within_finite _ _ Hd).
  rewrite (within_finite _ _ (Htx _ _ _ _ H3x H4x H1x H2x)).
  rewrite (within_finite _ _ (Htx _ _ _ _ H3y H4y H1y H2y)).
  reflexivity.
Qed.

Lemma getMatrix_finite : finiteMatrix (getMatrix hypot atan2 cos sin p) = true.
Proof.
  float_consts.
  unfold withinPoint in Hone, Htwo, HnewOne, HnewTwo.
  apply andb_true_iff in Hone, Htwo, HnewOne, HnewTwo.
  destruct Hone as [H1x H1y], Htwo as [H2x H2y],
           HnewOne as [H3x H3y], HnewTwo as [H4x H4y].
  pose proof scale_within as Hd.
  unfold finiteMatrix, getMatrix. cbn [a b c d e f].
  set (k := scaleFactor) in *.
  set (atan := atan2 (sub (y (two p)) (y (one p))) (sub (x (two p)) (x (one p)))).
  set (newAtan := atan2 (sub (y (newTwo p)) (y (newOne p)))
                        (sub (x (newTwo p)) (x (newOne p)))).
  assert (Hfin : forall u v : float,
             within K u = true -> within K v = true ->
             isFinite (sub u v) = true).
  { intros u v Hu Hv. apply (within_finite (K + 2)).
    apply sub_within; [exact Hu | exact Hv | lia | lia]. }
  assert (Hatan : within 2 atan = true) by (apply Hatan2; now apply Hfin).
  assert (HnewAtan : within 2 newAtan = true) by (apply Hatan2; now apply Hfin).
  assert (Hdelta : isFinite (sub newAtan atan) = true).
  { apply (within_finite (2 + 2)).
    apply sub_within; [assumption | assumption | lia | lia]. }
  pose proof (Hcos _ Hdelta) as Hc. pose proof (Hsin _ Hdelta) as Hs.
  set (cs := cos (sub newAtan atan)) in *.
  set (sn := sin (sub newAtan atan)) in *.
  assert (Hkc : within (Kd + 1 + 1) (mul k cs) = true)
    by (apply mul_within; [exact Hd | exact Hc | | ]; lia).
  assert (Hks : within (Kd + 1 + 1) (mul k sn) = true)
    by (apply mul_within; [exact Hd | exact Hs | | ]; lia).
  assert (Hoks : within (Kd + 1 + 1) (mul (opp k) sn) = true)
    by (apply mul_within; [apply opp_within; exact Hd | exact Hs | | ]; lia).
  assert (Hprod : forall u v t : float,
             within K u = true -> within K v = true -> within 1 t = true ->
             within (Kt + 1 + 1) (mul (mul k (div (add u v) (ofZ 2))) t) = true).
  { intros u v t Hu Hv Ht.
    apply mul_within; [now apply scaled_mean_within | exact Ht | | ]; lia. }
  assert (Hfirst : forall c0 c1 u v t : float,
             within K c0 = true -> within K c1 = true ->
             within K u = true -> within K v = true -> within 1 t = true ->
             within (Kt + 4)
               (sub (div (add c0 c1) (ofZ 2))
                    (mul (mul k (div (add u v) (ofZ 2))) t)) = true).
  { intros c0 c1 u v t Hc0 Hc1 Hu Hv Ht.
    replace (Kt + 4) with (Kt + 1 + 1 + 2) by ring.
    pose proof (mean_within c0 c1 Hc0 Hc1) as Hm.
    apply sub_within; [ | now apply Hprod | | ]; try lia.
    lift Hm. }
  assert (Htx : within (Kt + 4 + 2)
            (add (sub (div (add (x (newOne p)) (x (newTwo p))) (ofZ 2))
                      (mul (mul k (div (add (x (one p)) (x (two p))) (ofZ 2))) cs))
                 (mul (mul k (div (add (y (one p)) (y (two p))) (ofZ 2))) sn))
            = true).
  { apply add_within; [now apply Hfirst | | | ]; try lia.
    pose proof (Hprod _ _ _ H1y H2y Hs) as Hp. lift Hp. }
  assert (Hty : within (Kt + 4 + 2)
            (sub (sub (div (add (y (newOne p)) (y (newTwo p))) (ofZ 2))
                      (mul (mul k (div (add (y (one p)) (y (two p))) (ofZ 2))) cs))
                 (mul (mul k (div (add (x (one p)) (x (two p))) (ofZ 2))) sn))
            = true).
  { apply sub_within; [now apply Hfirst | | | ]; try lia.
    pose proof (Hprod _ _ _ H1x H2x Hs) as Hp. lift Hp. }
  rewrite (within_finite _ _ Hkc), (within_finite _ _ Hks),
          (within_finite _ _ Hoks), (within_finite _ _ Htx),
          (within_finite _ _ Hty).
  reflexivity.
Qed.

End BoundedInputs.

(** ** C4 *)

(** C4 (as stated): the points of [farApart] are finite and the start
    points are at a positive distance, yet the scale factor overflows and
    the matrix of [getZoomMatrix] is not finite. *)
Lemma finite_points_overflow :
  finitePoint (one farApart) && finitePoint (two farApart)
  && finitePoint (newOne farApart) && finitePoint (newTwo farApart)
  && isPositive (getDistance hypotFormula (one farApart) (two farApart))
  = true /\
  a (getZoomMatrix hypotFormula farApart) = infinity /\
  finiteMatrix (getZoomMatrix hypotFormula farApart) = false.
Proof. vm_compute. repeat split. Qed.

(** C4 (amended): when the start points are at distance zero the scale
    factor is a division by zero and both matrices have non-finite entries.
    Conversely every entry of both matrices is finite when the coordinates
    are finite and below [2^K] in magnitude, the start points are at a
    distance of at least [2^(-L-1)] and below [2^L], the new points are at
    a finite distance below [2^L], [K + 2 L + 11 <= 971], and [Math.atan2],
    [Math.cos] and [Math.sin] return, on finite arguments, finite values
    below [4] and [2] in magnitude. *)
Theorem zero_distance_or_bounded :
  (forall (hypot atan2 : float -> float -> float) (cos sin : float -> float)
          (p : MatrixProps),
     isZero (getDistance hypot (one p) (two p)) = true ->
     isFinite (a (getZoomMatrix hypot p)) = false /\
     finiteMatrix (getZoomMatrix hypot p) = false /\
     isFinite (a (getMatrix hypot atan2 cos sin p)) = false /\
     finiteMatrix (getMatrix hypot atan2 cos sin p) = false) /\
  (forall (hypot atan2 : float -> float -> float) (cos sin : float -> float)
          (p : MatrixProps) (K L : Z),
     0 <= K -> 0 <= L -> K + 2 * L + 11 <= emax - prec ->
     withinPoint K (one p) = true -> withinPoint K (two p) = true ->
     withinPoint K (newOne p) = true -> withinPoint K (newTwo p) = true ->
     between (- L) L (getDistance hypot (one p) (two p)) = true ->
     within L (getDistance hypot (newOne p) (newTwo p)) = true ->
     (forall u v : float,
        isFinite u = true -> isFinite v = true -> within 2 (atan2 u v) = true) ->
     (forall t : float, isFinite t = true -> within 1 (cos t) = true) ->
     (forall t : float, isFinite t = true -> within 1 (sin t) = true) ->
     finiteMatrix (getZoomMatrix hypot p) = true /\
     finiteMatrix (getMatrix hypot atan2 cos sin p) = true).
Proof.
  split.
  - intros hypot atan2 cos sin p Hz.
    destruct (zero_distance_entries hypot atan2 cos sin p Hz)
      as [(Ha & _) (Ha' & _)].
    repeat split; try assumption; now apply finiteMatrix_false.
  - intros hypot atan2 cos sin p K L HK HL Hsize H1 H2 H3 H4 HD HN Hat Hc Hs.
    split.
    + now apply (getZoomMatrix_finite hypot p K L).
    + now apply (getMatrix_finite hypot atan2 cos sin p K L).
Qed.

(** The two halves of C4 at concrete gestures: a gesture whose start points
    coincide, and the scenario of the specification, where the angles are
    [0], the cosine is [1] and the sine is [0]. *)
Lemma zero_distance_or_bounded_witness :
  let coincident :=
    mkProps (pointZ 3 4) (pointZ 3 4) (pointZ 0 0) (pointZ 20 0) in
  let atan2 := fun _ _ : float => zero in
  let cos := fun _ : float => ofZ 1 in
  let sin := fun _ : float => zero in
  (isZero (getDistance hypotFormula (one coincident) (two coincident)) = true /\
   finiteMatrix (getZoomMatrix hypotFormula coincident) = false /\
   finiteMatrix (getMatrix hypotFormula atan2 cos sin coincident) = false) /\
  (between (- 5) 5 (getDistance hypotFormula (one scenario) (two scenario))
   = true /\
   finiteMatrix (getZoomMatrix hypotFormula scenario) = true /\
   finiteMatrix (getMatrix hypotFormula atan2 cos sin scenario) = true).
Proof.
  intros coincident atan2 cos sin.
  assert (Hz : isZero (getDistance hypotFormula (one coincident) (two coincident))
               = true) by reflexivity.
  assert (HD : between (- 5) 5
                 (getDistance hypotFormula (one scenario) (two scenario)) = true)
    by reflexivity.
  split.
  - destruct (proj1 zero_distance_or_bounded
                hypotFormula atan2 cos sin coincident Hz) as (_ & Hn & _ & Hn').
    repeat split; assumption.
  - destruct (proj2 zero_distance_or_bounded
                hypotFormula atan2 cos sin scenario 5 5) as [Hf Hf'];
      try reflexivity; try (intros; reflexivity);
      try (unfold emax, prec; lia).
    repeat split; assumption.
Defined.

(** ** The scenario and the touch defaults in binary64 *)

(** On the scenario the binary64 computation is exact: the matrix is
    [[2, 0, 0, 2, 0, 0]]. *)
Example scenario_binary64 :
  getZoomMatrix hypotFormula scenario
  = mkMatrix (ofZ 2) zero zero (ofZ 2) zero zero.
Proof. reflexivity. Qed.

(** A NaN coordinate is falsy and becomes [0]; the other coordinate is
    kept. *)
Example getTouchCoords_nan :
  getTouchCoords (Some (mkTouch nan (ofZ 5))) = mkPoint zero (ofZ 5) /\
  getTouchCoords None = mkPoint zero zero.
Proof. split; reflexivity. Qed.

End IEEEFacts.

(* ================================================================== *)
(** * More properties in exact arithmetic                              *)
(* ================================================================== *)

Section ExactExtras.

Import Exact.
Local Open Scope R_scope.

(** ** The matrix primitive *)









(** ** X: write and read of the group's transform *)



(** ** Events that start no gesture *)

Section Idle.

Variable props : Props.

Lemma fold_single (touches : TouchList) (ls : list Listener) :
  forall h : Hook,
    forallb isSingle ls = true ->
    fold_left (onTouchMove props touches) ls h = h.
Proof.
  induction ls as [ | l ls IH]; intros h Hall; [reflexivity | ].
  simpl in Hall. apply andb_true_iff in Hall. destruct Hall as [Hl Hls].
  destruct l; [ | discriminate]. simpl. now apply IH.
Qed.

Lemma forallb_snoc_single (ls : list Listener) :
  forallb isSingle ls = true -> forallb isSingle (ls ++ [SingleMove]) = true.
Proof. intros H. rewrite forallb_app, H. reflexivity. Qed.

(** An event other than a two-touch [touchstart], handled while only
    single-touch listeners are registered, keeps the matrix and registers
    no two-finger listener. *)
Lemma dispatch_inert (h : Hook) (ev : Event) :
  forallb isSingle (listeners h) = true ->
  twoTouchStart ev = false ->
  matrix (dispatch props h ev) = matrix h /\
  forallb isSingle (listeners (dispatch props h ev)) = true.
Proof.
  intros Hall Hev. unfold dispatch.
  rewrite watchEffect_matrix, watchEffect_listeners.
  destruct ev as [touches | touches | touches]; simpl in Hev.
  - unfold onTouchStart. rewrite Hev.
    destruct (Nat.eqb (length touches) 1); simpl.
    + split; [reflexivity | now apply forallb_snoc_single].
    + split; [reflexivity | exact Hall].
  - rewrite (fold_single touches (listeners h) h Hall). split; [reflexivity | exact Hall].
  - simpl. split; reflexivity.
Qed.

Lemma run_inert (evs : list Event) :
  forall h : Hook,
    forallb isSingle (listeners h) = true ->
    existsb twoTouchStart evs = false ->
    matrix (run props h evs) = matrix h.
Proof.
  induction evs as [ | ev evs IH]; intros h Hall Hevs; [reflexivity | ].
  simpl in Hevs. apply orb_false_iff in Hevs. destruct Hevs as [Hev Hevs].
  destruct (dispatch_inert h ev Hall Hev) as [Hm Hl].
  change (run props h (ev :: evs)) with (run props (dispatch props h ev) evs).
  rewrite (IH _ Hl Hevs). exact Hm.
Qed.

Lemma moves_start_nothing (moves : list TouchList) :
  existsb twoTouchStart (map TouchMove moves) = false.
Proof. induction moves as [ | mv moves IH]; [reflexivity | exact IH]. Qed.

(** X1: a [touchend] removes the move listeners of every gesture: the
    [touchmove] events that follow it leave the current transform as it
    was, whatever gesture was active before. *)
Theorem touchend_stops_gesture (h : Hook) (touches : TouchList)
        (moves : list TouchList) :
  matrix (run props h (TouchEnd touches :: map TouchMove moves)) = matrix h.
Proof.
  change (run props h (TouchEnd touches :: map TouchMove moves))
    with (run props (dispatch props h (TouchEnd touches)) (map TouchMove moves)).
  rewrite run_inert.
  - unfold dispatch. now rewrite watchEffect_matrix.
  - unfold dispatch. now rewrite watchEffect_listeners.
  - apply moves_start_nothing.
Qed.

(** X2: as long as no [touchstart] carries exactly two touches, nothing
    changes the current transform: one-finger drags, moves, lifts and
    touches of three or more fingers are all ignored. *)
Theorem only_two_touches_transform (h : Hook) (evs : list Event) :
  forallb isSingle (listeners h) = true ->
  existsb twoTouchStart evs = false ->
  matrix (run props h evs) = matrix h.
Proof. intros Hall Hevs. now apply run_inert. Qed.

End Idle.

(** X2 on a fresh mount: a one-finger drag and a three-finger touch leave
    the matrix unset. *)
Lemma only_two_touches_transform_witness :
  let evs := [TouchStart [mkTouch 1 1]; TouchMove [mkTouch 5 9]; TouchEnd [];
              TouchStart [mkTouch 1 1; mkTouch 2 2; mkTouch 3 3];
              TouchMove [mkTouch 4 4; mkTouch 2 2; mkTouch 3 3]] in
  forallb isSingle (listeners (mounted identity)) = true /\
  existsb twoTouchStart evs = false /\
  matrix (run (mkHookProps (Some true)) (mounted identity) evs) = None.
Proof.
  intros evs. split; [reflexivity | split; [reflexivity | ]].
  exact (only_two_touches_transform (mkHookProps (Some true)) (mounted identity)
           evs eq_refl eq_refl).
Defined.

(** ** Gestures one after the other *)

Section Gestures.

Variable props : Props.






End Gestures.


(** ** What the incremental matrix does to the content *)






(** ** The scale of a similarity *)








(** ** [Math.atan2] inverts the polar form *)



(** ** The transform stays a similarity *)

Section Similar.

Variable props : Props.








End Similar.


(** ** What a gesture does to the content *)

Section Content.

Variable props : Props.
Variable h : Hook.
Variables t1 t2 : Touch.
Variable moves : list TouchList.
Variable last : TouchList.

Local Abbreviation base := (getCurrentMatrix (dom h)).
Local Abbreviation one' := (getTouchCoords (Some t1)).
Local Abbreviation two' := (getTouchCoords (Some t2)).
Local Abbreviation newOne' := (getTouchCoords (item last 0)).
Local Abbreviation newTwo' := (getTouchCoords (item last 1)).
Local Abbreviation after :=
  (run props h (TouchStart [t1; t2] :: map TouchMove (moves ++ [last]))).

Hypothesis Hdistinct : one' <> two'.






End Content.

(** ** [getDistance] is a metric *)



(** ** Rigid motions of the fingers *)





(** ** Orientation *)


(** ** The [angle] ref *)







(** ** The gestures used as examples *)















End ExactExtras.

(* ================================================================== *)
(** * More properties in binary64 arithmetic                           *)
(* ================================================================== *)

Section IEEEExtras.

Import IEEE.

Lemma orZero_clean (v : option float) :
  isNaN (orZero v) = false /\ isNegZero (orZero v) = false.
Proof.
  destruct v as [n | ]; [ | split; reflexivity].
  destruct n as [[ | ] | s | | s m ex]; split; reflexivity.
Qed.

(** X17: [getTouchCoords] cleans its input.  Whatever the touch (missing,
    or with NaN or a negative zero as a coordinate), no coordinate of the
    result is NaN or the negative zero; a truthy coordinate is returned
    unchanged, infinities included, and a falsy one comes back as [+0]. *)
Theorem getTouchCoords_clean (touch : option Touch) :
  (isNaN (x (getTouchCoords touch)) = false /\
   isNegZero (x (getTouchCoords touch)) = false /\
   isNaN (y (getTouchCoords touch)) = false /\
   isNegZero (y (getTouchCoords touch)) = false) /\
  getTouchCoords None = mkPoint zero zero.
Proof.
  unfold getTouchCoords. cbn [x y].
  destruct (orZero_clean (option_map pageX touch)) as (Hx1 & Hx2).
  destruct (orZero_clean (option_map pageY touch)) as (Hy1 & Hy2).
  split; [repeat split; assumption | reflexivity].
Qed.

End IEEEExtras.
